(** * Verification of the squelch/VAD recorder ([record.py])

    Shallow embedding of the signal decoding ([bytes_to_float],
    [frame_to_wave], [squelch]) and of the gate loop of [record]:
    one iteration of the [while True] loop is a step on an explicit
    state record, the sink and the log are an output trace.  The set-up of
    [record] ([chunk_size]) is embedded too; [dB_to_percent] (a floating-point [pow]) and the device
    listing are not. *)

From Stdlib Require Import ZArith QArith Qabs Lia List Bool.
From Stdlib Require Import Strings.Byte.
Import ListNotations.

Open Scope Z_scope.

(** ** Bytes and [int.from_bytes] *)

(** A byte of a [bytearray] as an integer in [0, 256). *)
Definition byte_Z (b : byte) : Z := Z.of_N (Byte.to_N b).

(** [int.from_bytes(bs, "little", signed=False)]. *)
Fixpoint from_bytes_le_unsigned (bs : list byte) : Z :=
  match bs with
  | [] => 0
  | b :: rest => byte_Z b + 256 * from_bytes_le_unsigned rest
  end.

(** [int.from_bytes(bs, "little", signed=True)]: two's complement over
    [8 * len(bs)] bits; the empty byte string is [0]. *)
Definition from_bytes_le_signed (bs : list byte) : Z :=
  let n := Z.of_nat (length bs) in
  let u := from_bytes_le_unsigned bs in
  if (0 <? n) && (2 ^ (8 * n - 1) <=? u) then u - 2 ^ (8 * n) else u.

(** [bytes_to_float(bytes) = int.from_bytes(bytes, "little", signed=True) / (1 << 15)].
    The quotient of an integer of at most 16 bits by [2^15] is exact in a
    double, so on the 2-byte slices [frame_to_wave] passes the rational
    [s / 32768] is the float the code computes.  On long byte strings Python
    rounds the quotient (above 53 bits) or raises [OverflowError] (past the
    double range); no statement here uses such inputs. *)
Definition bytes_to_float (bs : list byte) : Q :=
  Qmake (from_bytes_le_signed bs) 32768.

(** ** Python slicing and [range] *)

(** [frame[i:i + 2]]: Python slicing truncates at the end of the sequence. *)
Definition slice (frame : list byte) (i j : nat) : list byte :=
  firstn (j - i) (skipn i frame).

(** [range(start, stop, step)] for [step > 0], iterated as the interpreter
    does: yield [i] while [i < stop], then add [step].  The fuel [stop]
    suffices since [step >= 1]. *)
Fixpoint range_aux (fuel i stop step : nat) : list nat :=
  match fuel with
  | O => []
  | S fuel' => if Nat.ltb i stop then i :: range_aux fuel' (i + step) stop step else []
  end.

Definition py_range (start stop step : nat) : list nat :=
  range_aux (S stop) start stop step.

(** [frame_to_wave(frame)]: a list comprehension over
    [range(0, len(frame) // 2, 2)]. *)
Definition frame_to_wave (frame : list byte) : list Q :=
  map (fun i => bytes_to_float (slice frame i (i + 2)))
      (py_range 0 (Nat.div (length frame) 2) 2).

(** ** [max] and [squelch] *)

(** Python's [max] over a list: the first element, replaced by every later
    element that is strictly greater; [None] stands for the [ValueError]
    that [max] raises on an empty sequence. *)
Fixpoint max_from (m : Q) (xs : list Q) : Q :=
  match xs with
  | [] => m
  | y :: ys => max_from (if Qlt_le_dec m y then y else m) ys
  end.

Definition py_max (xs : list Q) : option Q :=
  match xs with
  | [] => None
  | x :: xs' => Some (max_from x xs')
  end.

(** Errors raised on the squelch path.  The code raises Python's
    [ValueError] from [max()] on an empty sample list; the spec calls it
    [EmptyFrame]. *)
Inductive error := EmptyFrame.

Inductive result (A : Type) :=
| Ok : A -> result A
| Err : error -> result A.
Arguments Ok {A} _.
Arguments Err {A} _.

(** [squelch(frame, threshold) = max(frame_to_wave(frame)) >= threshold]. *)
Definition squelch (frame : list byte) (threshold : Q) : result bool :=
  match py_max (frame_to_wave frame) with
  | None => Err EmptyFrame
  | Some m => Ok (Qle_bool threshold m)
  end.

(** ** The gate loop of [record] *)

(** The values of [record] that the loop reads: [sql_threshold] is
    [dB_to_percent(min(sql_threshold_db, 0))], kept as the (rational) value
    of the double the code computes. *)
Record config := {
  rate : Z;
  frame_duration : Z;
  sql_duration : Z;
  sql_threshold : Q;
  use_vad : bool
}.

(** The three local variables the loop updates. *)
Record state := {
  has_voice : bool;
  sql_open : bool;
  sql_open_time : Z
}.

(** [has_voice = False; sql_open = False; sql_open_time = 0]. *)
Definition init_state : state :=
  {| has_voice := false; sql_open := false; sql_open_time := 0 |}.

(** Observable effects of one iteration, in program order:
    the [log_print] lines, the call of [vad.is_speech] and the
    [wav_out.writeframes] call. *)
Inductive effect :=
| SqlOpened                    (* log_print("SQL open") *)
| VadQuery                     (* vad.is_speech(frame, rate) is called *)
| VoiceDetected                (* log_print("Voice detected") *)
| Write (frame : list byte)    (* wav_out.writeframes(frame) *)
| SqlClosed.                   (* log_print("SQL closed") *)

(** One iteration of [while True] after [frame = in_stream.read(chunk_size)].
    [speech] is the answer [vad.is_speech(frame, rate)] gives if it is
    called.  [continue] ends the iteration with the state reached so far. *)
Definition step (cfg : config) (s : state) (frame : list byte) (speech : bool)
  : result (state * list effect) :=
  match squelch frame (sql_threshold cfg) with
  | Err e => Err e
  | Ok loud =>
    (* if squelch(frame, sql_threshold): ... *)
    let '(s1, ev1) :=
      if loud
      then ({| has_voice := has_voice s; sql_open := true; sql_open_time := 0 |},
            if negb (sql_open s) then [SqlOpened] else [])
      else (s, []) in
    (* if not sql_open: continue *)
    if negb (sql_open s1) then Ok (s1, ev1) else
    (* if use_vad and not has_voice and vad.is_speech(frame, rate): ... *)
    let '(hv, ev2) :=
      if use_vad cfg && negb (has_voice s1)
      then (if speech then (true, [VadQuery; VoiceDetected]) else (has_voice s1, [VadQuery]))
      else (has_voice s1, []) in
    (* if not use_vad or (use_vad and has_voice): wav_out.writeframes(frame) *)
    let ev3 := if negb (use_vad cfg) || (use_vad cfg && hv) then [Write frame] else [] in
    (* hang timer *)
    if sql_open_time s1 <? sql_duration cfg
    then Ok ({| has_voice := hv; sql_open := true;
                sql_open_time := sql_open_time s1 + frame_duration cfg |},
             ev1 ++ ev2 ++ ev3)
    else Ok ({| has_voice := false; sql_open := false; sql_open_time := sql_open_time s1 |},
             ev1 ++ ev2 ++ ev3 ++ [SqlClosed])
  end.

(** The loop over a finite prefix of the input: each element is a frame
    read from the device and the classifier's answer for it.  The result
    is the state after the prefix and the effects of each iteration; an
    error propagates out of the loop. *)
Fixpoint run (cfg : config) (s : state) (inputs : list (list byte * bool))
  : result (state * list (list effect)) :=
  match inputs with
  | [] => Ok (s, [])
  | (frame, speech) :: rest =>
    match step cfg s frame speech with
    | Err e => Err e
    | Ok (s', evs) =>
      match run cfg s' rest with
      | Err e => Err e
      | Ok (s'', evss) => Ok (s'', evs :: evss)
      end
    end
  end.

(** Whether an iteration wrote its frame to the sink. *)
Definition writes (evs : list effect) : bool :=
  existsb (fun e => match e with Write _ => true | _ => false end) evs.

(** States reachable from [init_state] by iterations that did not raise. *)
Inductive reachable (cfg : config) : state -> Prop :=
| reach_init : reachable cfg init_state
| reach_step s frame speech s' evs :
    reachable cfg s -> step cfg s frame speech = Ok (s', evs) -> reachable cfg s'.

(** ** Concrete frames of the default session (8000 Hz, mono, 30 ms):
    [chunk_size = 240] samples of two bytes. *)
Definition silent_frame : list byte := repeat x00 480.
Definition loud_frame : list byte := concat (repeat [xff; x7f] 240).

Definition cfg_scenario : config :=
  {| rate := 8000; frame_duration := 30; sql_duration := 300;
     sql_threshold := 1 # 1000000; use_vad := false |}.

Definition scenario_inputs : list (list byte * bool) :=
  (loud_frame, false) :: repeat (silent_frame, false) 10.

(** A configuration with no hang time ([-d 0] on the command line). *)
Definition cfg_zero_hang : config :=
  {| rate := 8000; frame_duration := 30; sql_duration := 0;
     sql_threshold := 1 # 1000000; use_vad := false |}.

(** The default configuration with the voice gate on. *)
Definition cfg_vad : config :=
  {| rate := 8000; frame_duration := 30; sql_duration := 300;
     sql_threshold := 1 # 1000000; use_vad := true |}.

(** ** Reading aids for the statements *)

(** The spec's reading of two bytes as a little-endian signed 16-bit
    integer, written from the spec's words (compared with [bytes_to_float]). *)
Definition le_s16 (b0 b1 : byte) : Z :=
  let u := byte_Z b0 + 256 * byte_Z b1 in
  if 32768 <=? u then u - 65536 else u.

Definition closes (evs : list effect) : bool :=
  existsb (fun e => match e with SqlClosed => true | _ => false end) evs.

Definition voice_detected (evs : list effect) : bool :=
  existsb (fun e => match e with VoiceDetected => true | _ => false end) evs.

(** Every iteration writes its frame, up to and including the first one
    that closes the gate. *)
Fixpoint written_until_close (evss : list (list effect)) : bool :=
  match evss with
  | [] => true
  | evs :: rest => writes evs && (closes evs || written_until_close rest)
  end.

(** ** Set-up of [record] *)

(** [chunk_size = channels * rate * frame_duration // 1000]; Python's [//]
    floors, as [Z.div] does. *)
Definition record_chunk_size (channels rate frame_duration : Z) : Z :=
  channels * rate * frame_duration / 1000.

(** ** Reading aids on traces *)

(** The frames handed to [wav_out.writeframes], in order. *)
Fixpoint written_frames (evs : list effect) : list (list byte) :=
  match evs with
  | [] => []
  | Write f :: rest => f :: written_frames rest
  | _ :: rest => written_frames rest
  end.

(** Replays the "SQL open"/"SQL closed" log lines against a gate that is
    [is_open]: an "open" line needs a closed gate, a "closed" line an open
    one; the result is the gate at the end, [None] on a mismatch. *)
Fixpoint gate_log (is_open : bool) (evs : list effect) : option bool :=
  match evs with
  | [] => Some is_open
  | SqlOpened :: rest => if is_open then None else gate_log true rest
  | SqlClosed :: rest => if is_open then gate_log false rest else None
  | _ :: rest => gate_log is_open rest
  end.

Definition count_closes (evss : list (list effect)) : nat :=
  length (filter closes evss).

(** ** Lemmas on decoding *)

Lemma byte_Z_range (b : byte) : 0 <= byte_Z b <= 255.
Proof.
  unfold byte_Z. pose proof (Byte.to_N_bounded b). lia.
Qed.

Lemma range_aux_step2 (stop : nat) : forall fuel i,
  (stop - i < fuel)%nat ->
  range_aux fuel i stop 2 = map (fun k => i + 2 * k)%nat (seq 0 ((stop - i + 1) / 2)).
Proof.
  induction fuel as [|fuel IH]; intros i Hf; [lia|].
  cbn [range_aux]. destruct (Nat.ltb_spec i stop) as [Hlt|Hge].
  - rewrite IH by lia.
    replace ((stop - i + 1) / 2)%nat with (S ((stop - (i + 2) + 1) / 2)).
    + cbn [seq map]. rewrite <- seq_shift, map_map.
      f_equal; try lia. apply map_ext. intros k. lia.
    + destruct (Nat.eq_dec (stop - i) 1) as [E|E].
      * rewrite E. replace (stop - (i + 2))%nat with O by lia. reflexivity.
      * replace (stop - i + 1)%nat with (1 * 2 + (stop - (i + 2) + 1))%nat by lia.
        rewrite Nat.div_add_l by lia. lia.
  - replace (stop - i)%nat with O by lia. reflexivity.
Qed.

Lemma py_range_step2 (stop : nat) :
  py_range 0 stop 2 = map (fun k => 2 * k)%nat (seq 0 ((stop + 1) / 2)).
Proof.
  unfold py_range. rewrite range_aux_step2 by lia.
  rewrite Nat.sub_0_r. reflexivity.
Qed.

Lemma slice_two (l : list byte) (i : nat) :
  (i + 1 < length l)%nat ->
  slice l i (i + 2) = [nth i l x00; nth (i + 1) l x00].
Proof.
  unfold slice. replace (i + 2 - i)%nat with 2%nat by lia.
  revert i. induction l as [|a l IH]; intros i H; simpl in H; [lia|].
  destruct i as [|i].
  - destruct l as [|b l]; simpl in H; [lia|]. reflexivity.
  - simpl. apply IH. lia.
Qed.

Lemma frame_to_wave_nth (frame : list byte) :
  frame_to_wave frame =
  map (fun k => bytes_to_float [nth (2 * k) frame x00; nth (2 * k + 1) frame x00])
      (seq 0 ((length frame / 2 + 1) / 2)).
Proof.
  unfold frame_to_wave. rewrite py_range_step2, map_map.
  apply map_ext_in. intros k Hk. apply in_seq in Hk.
  rewrite slice_two; [reflexivity|].
  assert (length frame / 2 * 2 <= length frame)%nat
    by (rewrite Nat.mul_comm; apply Nat.Div0.mul_div_le).
  assert (2 * ((length frame / 2 + 1) / 2) <= length frame / 2 + 1)%nat
    by apply Nat.Div0.mul_div_le.
  lia.
Qed.

Lemma frame_to_wave_length (frame : list byte) :
  length (frame_to_wave frame) = ((length frame / 2 + 1) / 2)%nat.
Proof.
  rewrite frame_to_wave_nth, length_map, length_seq. reflexivity.
Qed.

Lemma frame_to_wave_nil_iff (frame : list byte) :
  frame_to_wave frame = [] <-> (length frame < 2)%nat.
Proof.
  rewrite <- length_zero_iff_nil, frame_to_wave_length.
  destruct (Nat.lt_ge_cases (length frame) 2) as [H|H]; split; intros E; auto.
  - destruct (length frame) as [|[|n]]; [reflexivity|reflexivity|lia].
  - exfalso. assert (1 <= length frame / 2)%nat.
    { apply Nat.div_le_lower_bound; lia. }
    assert (1 <= (length frame / 2 + 1) / 2)%nat.
    { apply Nat.div_le_lower_bound; lia. }
    lia.
  - lia.
Qed.

Lemma max_from_spec (m : Q) (xs : list Q) :
  In (max_from m xs) (m :: xs) /\ (forall x, In x (m :: xs) -> (x <= max_from m xs)%Q).
Proof.
  revert m. induction xs as [|y ys IH]; intros m; simpl.
  - split; [left; reflexivity|]. intros x [<-|[]]. apply Qle_refl.
  - destruct (Qlt_le_dec m y) as [Hlt|Hle];
      destruct (IH (if Qlt_le_dec m y then y else m)) as [Hin Hmax];
      destruct (Qlt_le_dec m y); try (exfalso; apply (Qlt_not_le m y); assumption);
      split.
    + simpl in Hin. tauto.
    + intros x [<-|[<-|Hx]].
      * apply Qle_trans with y; [apply Qlt_le_weak; assumption|apply Hmax; left; reflexivity].
      * apply Hmax. left. reflexivity.
      * apply Hmax. right. assumption.
    + simpl in Hin. tauto.
    + intros x [<-|[<-|Hx]].
      * apply Hmax. left. reflexivity.
      * apply Qle_trans with m; [assumption|apply Hmax; left; reflexivity].
      * apply Hmax. right. assumption.
Qed.

Lemma py_max_spec (xs : list Q) :
  xs <> [] ->
  exists m, py_max xs = Some m /\ In m xs /\ (forall x, In x xs -> (x <= m)%Q).
Proof.
  destruct xs as [|x xs]; intros H; [congruence|].
  exists (max_from x xs). simpl. destruct (max_from_spec x xs) as [Hin Hmax].
  split; [reflexivity|]. split; assumption.
Qed.

Lemma nth_all_zero (frame : list byte) (k : nat) :
  Forall (fun b => b = x00) frame -> nth k frame x00 = x00.
Proof.
  intros H. revert k. induction H as [|b l Hb _ IH]; intros [|k]; simpl; auto.
Qed.

Lemma nth_agree (l l' : list byte) (K j : nat) :
  (forall i, (i < K)%nat -> nth_error l' i = nth_error l i) ->
  (j < K)%nat -> nth j l' x00 = nth j l x00.
Proof.
  intros H Hj. rewrite <- !nth_default_eq. unfold nth_default. rewrite H by assumption.
  reflexivity.
Qed.

Lemma in_py_range_step2 (stop i : nat) :
  In i (py_range 0 stop 2) -> exists k, i = (2 * k)%nat /\ (k < (stop + 1) / 2)%nat.
Proof.
  rewrite py_range_step2. intros Hi. apply in_map_iff in Hi.
  destruct Hi as [k [<- Hk]]. apply in_seq in Hk. exists k. split; [reflexivity|lia].
Qed.

Lemma half_bound (n : nat) : (2 * ((n / 2 + 1) / 2) <= n / 2 + 1)%nat /\ (n / 2 * 2 <= n)%nat.
Proof.
  split; [apply Nat.Div0.mul_div_le|rewrite Nat.mul_comm; apply Nat.Div0.mul_div_le].
Qed.

Lemma Qle_bool_Qmake (a b : Z) :
  Qle_bool (Qmake a 32768) (Qmake b 32768) = (a <=? b).
Proof.
  unfold Qle_bool. simpl. destruct (Z.leb_spec (a * 32768) (b * 32768));
    destruct (Z.leb_spec a b); lia.
Qed.

(** ** Lemmas on one iteration of the loop *)

(** Splits an iteration on every boolean it tests. *)
Ltac step_cases H :=
  repeat (cbn in H; match type of H with
                    | context [if (?a <? ?b) then _ else _] => destruct (a <? b)
                    end);
  cbn in H.

Lemma step_loud (cfg : config) (s : state) (frame : list byte) (speech : bool) :
  squelch frame (sql_threshold cfg) = Ok true ->
  0 < sql_duration cfg ->
  exists hv evs,
    step cfg s frame speech =
      Ok ({| has_voice := hv; sql_open := true; sql_open_time := frame_duration cfg |}, evs) /\
    closes evs = false.
Proof.
  intros Hq Hd. unfold step. rewrite Hq. destruct s as [hv so tm]. cbn.
  replace (0 <? sql_duration cfg) with true by (symmetry; apply Z.ltb_lt; assumption).
  destruct (use_vad cfg), hv, speech, so; cbn; eexists; eexists; split; reflexivity.
Qed.

(** An iteration on an open gate (open before, or opened by this frame). *)
Lemma step_open (cfg : config) (s s' : state) (frame : list byte) (speech loud : bool)
  (evs : list effect) :
  squelch frame (sql_threshold cfg) = Ok loud ->
  sql_open s || loud = true ->
  step cfg s frame speech = Ok (s', evs) ->
  writes evs = negb (use_vad cfg) || has_voice s || (use_vad cfg && speech) /\
  voice_detected evs = use_vad cfg && negb (has_voice s) && speech /\
  closes evs = negb (sql_open s') /\
  (sql_open s' = true -> has_voice s' = has_voice s || (use_vad cfg && speech)) /\
  (sql_open s' = false -> has_voice s' = false).
Proof.
  intros Hq Ho Hs. unfold step in Hs. rewrite Hq in Hs. destruct s as [hv so tm].
  cbn in Ho. destruct (use_vad cfg), hv, speech, so, loud; try discriminate Ho;
    step_cases Hs; injection Hs as <- <-; cbn; repeat split; discriminate.
Qed.

(** A loud frame, whatever the state: the timer restarts from 0. *)
Lemma step_loud_any (cfg : config) (s s' : state) (frame : list byte) (speech : bool)
  (evs : list effect) :
  squelch frame (sql_threshold cfg) = Ok true ->
  step cfg s frame speech = Ok (s', evs) ->
  sql_open s' = (0 <? sql_duration cfg) /\
  (sql_open s' = true -> sql_open_time s' = frame_duration cfg) /\
  closes evs = negb (0 <? sql_duration cfg).
Proof.
  intros Hq Hs. unfold step in Hs. rewrite Hq in Hs. destruct s as [hv so tm].
  destruct (use_vad cfg), hv, speech, so; cbn in Hs;
    destruct (0 <? sql_duration cfg); injection Hs as <- <-; cbn;
    repeat split; discriminate.
Qed.

Lemma step_closed (cfg : config) (s : state) (frame : list byte) (speech : bool) :
  sql_open s = false ->
  squelch frame (sql_threshold cfg) = Ok false ->
  step cfg s frame speech = Ok (s, []).
Proof.
  intros Hc Hq. unfold step. rewrite Hq. cbn. rewrite Hc. reflexivity.
Qed.

(** ** Decoding: [bytes_to_float], [frame_to_wave], [squelch] *)

(** C4: on a frame that decodes to at least one sample, [squelch] returns
    whether the signed maximum [m] of the samples is at least the
    threshold; a peak equal to the threshold opens (the comparison is
    inclusive) and an all-zero frame never opens for a positive threshold. *)
Theorem squelch_is_max_ge (frame : list byte) (t : Q)
  (Hne : frame_to_wave frame <> []) :
  (exists m, py_max (frame_to_wave frame) = Some m /\ In m (frame_to_wave frame) /\
     (forall x, In x (frame_to_wave frame) -> (x <= m)%Q) /\
     (squelch frame t = Ok true <-> (t <= m)%Q) /\
     (squelch frame t = Ok false <-> (m < t)%Q) /\
     ((m == t)%Q -> squelch frame t = Ok true))
  /\ (Forall (fun b => b = x00) frame -> (0 < t)%Q -> squelch frame t = Ok false).
Proof.
  destruct (py_max_spec _ Hne) as [m [Hm [Hin Hmax]]].
  unfold squelch. rewrite Hm. split.
  - exists m. split; [reflexivity|]. split; [assumption|]. split; [assumption|].
    split; [|split].
    + rewrite <- Qle_bool_iff. split; [intros E; injection E; auto|intros ->; reflexivity].
    + split.
      * intros E. injection E as E. apply Qnot_le_lt. rewrite <- Qle_bool_iff, E. discriminate.
      * intros Hlt. destruct (Qle_bool t m) eqn:E; [|reflexivity].
        apply Qle_bool_iff in E. exfalso. apply (Qlt_not_le m t); assumption.
    + intros Heq. assert (E : Qle_bool t m = true)
        by (apply Qle_bool_iff; rewrite Heq; apply Qle_refl).
      rewrite E. reflexivity.
  - intros Hz Ht. rewrite frame_to_wave_nth in Hin.
    apply in_map_iff in Hin. destruct Hin as [k [Hk _]].
    rewrite !nth_all_zero in Hk by assumption.
    subst m. destruct (Qle_bool t (bytes_to_float [x00; x00])) eqn:E; [|reflexivity].
    apply Qle_bool_iff in E. exfalso. apply (Qlt_not_le _ _ Ht).
    apply Qle_trans with (1 := E). vm_compute. discriminate.
Qed.

Lemma squelch_is_max_ge_witness :
  frame_to_wave [xff; x7f; x00; x00] <> [] /\
  squelch [xff; x7f; x00; x00] (32767 # 32768) = Ok true.
Proof.
  assert (H : frame_to_wave [xff; x7f; x00; x00] <> []) by (vm_compute; discriminate).
  split; [exact H|].
  destruct (squelch_is_max_ge _ (32767 # 32768) H) as [[m [Hm [_ [_ [_ [_ Heq]]]]]] _].
  apply Heq. vm_compute in Hm. injection Hm as <-. reflexivity.
Defined.

(** C5: a frame that decodes to no sample (exactly the frames of fewer
    than two bytes) makes [squelch] fail with [EmptyFrame]. *)
Theorem squelch_empty_frame (frame : list byte) (t : Q)
  (Hempty : frame_to_wave frame = []) :
  squelch frame t = Err EmptyFrame /\ (length frame < 2)%nat.
Proof.
  unfold squelch. rewrite Hempty. split; [reflexivity|].
  apply frame_to_wave_nil_iff. assumption.
Qed.

Lemma squelch_empty_frame_witness :
  frame_to_wave [] = [] /\ squelch [] (1 # 1000000) = Err EmptyFrame.
Proof.
  split; [reflexivity|].
  apply (squelch_empty_frame [] (1 # 1000000)). reflexivity.
Defined.

(** C6 (as stated): a frame of six bytes has its first half at indices
    0..2, yet changing byte 3 changes the decoded samples. *)
Lemma frame_to_wave_reads_past_half :
  firstn 3 [x00; x00; x00; x00; x00; x00] = firstn 3 [x00; x00; x00; x01; x00; x00] /\
  frame_to_wave [x00; x00; x00; x00; x00; x00] <> frame_to_wave [x00; x00; x00; x01; x00; x00].
Proof.
  split; [reflexivity|]. vm_compute. discriminate.
Qed.

(** C6 (amended): with [h = len(frame) // 2], [frame_to_wave] decodes the
    2-byte groups at offsets [0, 2, 4, ...] below [h], i.e. [ceil(h / 2)]
    samples, reading the bytes at indices below [2 * ceil(h / 2)] (which is
    [h] for even [h] and [h + 1] for odd [h]); no other byte influences the
    result, so for even [h] only the first half matters. *)
Theorem frame_to_wave_decodes_prefix (frame : list byte) :
  let h := (length frame / 2)%nat in
  py_range 0 h 2 = map (fun k => 2 * k)%nat (seq 0 ((h + 1) / 2)) /\
  length (frame_to_wave frame) = ((h + 1) / 2)%nat /\
  (2 * ((h + 1) / 2) <= h + 1)%nat /\
  (Nat.Even h -> (2 * ((h + 1) / 2) = h)%nat) /\
  (forall frame', length frame' = length frame ->
     (forall i, (i < 2 * ((h + 1) / 2))%nat -> nth_error frame' i = nth_error frame i) ->
     frame_to_wave frame' = frame_to_wave frame).
Proof.
  cbv zeta. split; [apply py_range_step2|]. split; [apply frame_to_wave_length|].
  split; [apply half_bound|]. split.
  - intros [j Hj]. rewrite Hj. replace (2 * j + 1)%nat with (1 + j * 2)%nat by lia.
    rewrite Nat.div_add by lia. simpl. lia.
  - intros frame' Hlen Hagree. rewrite !frame_to_wave_nth, Hlen.
    apply map_ext_in. intros k Hk. apply in_seq in Hk.
    rewrite (nth_agree frame frame' (2 * ((length frame / 2 + 1) / 2)) (2 * k)) by (assumption || lia).
    rewrite (nth_agree frame frame' (2 * ((length frame / 2 + 1) / 2)) (2 * k + 1)) by (assumption || lia).
    reflexivity.
Qed.

(** C7 (as stated): [bytes_to_float] has no length check; it returns a
    value on fewer than two bytes. *)
Lemma bytes_to_float_short_no_error :
  bytes_to_float [] = 0 # 32768 /\ bytes_to_float [x01] = 1 # 32768 /\
  bytes_to_float [xff] = -1 # 32768.
Proof.
  split; [|split]; reflexivity.
Qed.

(** C7 (amended): on fewer than two bytes [bytes_to_float] returns the
    signed little-endian value of the bytes given over 32768 ([0] for no
    byte, the signed 8-bit value for one byte); [frame_to_wave] only ever
    passes it slices of exactly two bytes. *)
Theorem bytes_to_float_short (b : byte) :
  bytes_to_float [] = 0 # 32768 /\
  bytes_to_float [b] = (if byte_Z b <? 128 then byte_Z b else byte_Z b - 256) # 32768 /\
  (forall frame i, In i (py_range 0 (length frame / 2) 2) ->
     length (slice frame i (i + 2)) = 2%nat).
Proof.
  split; [reflexivity|]. split.
  - unfold bytes_to_float, from_bytes_le_signed. cbn [from_bytes_le_unsigned length].
    rewrite Z.mul_0_r, Z.add_0_r. change (2 ^ (8 * Z.of_nat 1 - 1)) with 128.
    change (2 ^ (8 * Z.of_nat 1)) with 256. simpl andb.
    destruct (Z.leb_spec 128 (byte_Z b)), (Z.ltb_spec (byte_Z b) 128);
      reflexivity || lia.
  - intros frame i Hi. apply in_py_range_step2 in Hi. destruct Hi as [k [-> Hk]].
    destruct (half_bound (length frame)).
    rewrite slice_two by lia. reflexivity.
Qed.

(** C8: two bytes are read as the little-endian signed 16-bit integer [s]
    and mapped to [s / 32768], in [-1, 1]; the map preserves and reflects
    the order of [s]; [32767] gives about [0.999969] and [-32768] gives
    exactly [-1]. *)
Theorem bytes_to_float_le_s16 (b0 b1 : byte) :
  bytes_to_float [b0; b1] = le_s16 b0 b1 # 32768 /\
  -32768 <= le_s16 b0 b1 <= 32767 /\
  (-1 <= bytes_to_float [b0; b1] <= 1)%Q /\
  (forall c0 c1, Qle_bool (bytes_to_float [b0; b1]) (bytes_to_float [c0; c1]) =
                 (le_s16 b0 b1 <=? le_s16 c0 c1)) /\
  bytes_to_float [xff; x7f] = 32767 # 32768 /\
  (Qabs (bytes_to_float [xff; x7f] - (999969 # 1000000)) < 1 # 1000000)%Q /\
  (bytes_to_float [x00; x80] == -1)%Q.
Proof.
  assert (Heq : forall c0 c1, bytes_to_float [c0; c1] = le_s16 c0 c1 # 32768).
  { intros c0 c1. unfold bytes_to_float, from_bytes_le_signed, le_s16.
    cbn [from_bytes_le_unsigned length].
    replace (byte_Z c0 + 256 * (byte_Z c1 + 256 * 0)) with (byte_Z c0 + 256 * byte_Z c1)
      by ring.
    reflexivity. }
  assert (Hr : -32768 <= le_s16 b0 b1 <= 32767).
  { unfold le_s16. pose proof (byte_Z_range b0). pose proof (byte_Z_range b1).
    destruct (Z.leb_spec 32768 (byte_Z b0 + 256 * byte_Z b1)); lia. }
  split; [apply Heq|]. split; [exact Hr|]. split; [|split; [|split; [|split]]].
  - rewrite Heq. unfold Qle. simpl. lia.
  - intros c0 c1. rewrite !Heq. apply Qle_bool_Qmake.
  - reflexivity.
  - vm_compute. reflexivity.
  - vm_compute. reflexivity.
Qed.

(** ** The gate loop *)

(** C1 (as stated): in the scenario, the eleventh frame is written to the
    sink; it is the iteration that also closes the gate. *)
Lemma scenario_frame11_written :
  match run cfg_scenario init_state scenario_inputs with
  | Ok (_, evss) => writes (nth 10 evss []) = true /\ closes (nth 10 evss []) = true
  | Err _ => False
  end.
Proof.
  vm_compute. split; reflexivity.
Qed.

(** C1 (amended): with hang time 300 ms, 30 ms frames and no voice gate,
    one loud frame then ten silent frames from the initial state: the gate
    opens on frame 1 and is open after each of frames 1..10 with elapsed
    time [30 * k] (300 after frame 10); frame 11 is written and then closes
    the gate with [SqlClosed]; all eleven frames are written. *)
Theorem scenario_hang_300 (r : Z) (t : Q) (L S : list byte) (b0 : bool) (bs : list bool)
  (HL : squelch L t = Ok true) (HS : squelch S t = Ok false) (Hbs : length bs = 10%nat) :
  let cfg := {| rate := r; frame_duration := 30; sql_duration := 300;
                sql_threshold := t; use_vad := false |} in
  let inputs := (L, b0) :: map (fun b => (S, b)) bs in
  (forall k, (1 <= k <= 10)%nat ->
     exists evss, run cfg init_state (firstn k inputs) =
       Ok ({| has_voice := false; sql_open := true; sql_open_time := 30 * Z.of_nat k |}, evss)) /\
  run cfg init_state inputs =
    Ok ({| has_voice := false; sql_open := false; sql_open_time := 300 |},
        [SqlOpened; Write L] :: repeat [Write S] 9 ++ [[Write S; SqlClosed]]).
Proof.
  do 10 (destruct bs as [|? bs]; [discriminate Hbs|]).
  destruct bs; [|discriminate Hbs].
  cbv zeta. split.
  - intros k Hk.
    assert (k = 1 \/ k = 2 \/ k = 3 \/ k = 4 \/ k = 5 \/ k = 6 \/ k = 7 \/ k = 8 \/ k = 9 \/ k = 10)%nat
      as Hcase by lia.
    repeat destruct Hcase as [->|Hcase]; subst; eexists;
      cbn [firstn map run]; unfold step; cbn [sql_threshold]; rewrite ?HL, ?HS; reflexivity.
  - cbn [map run]. unfold step. cbn [sql_threshold]. rewrite HL, HS. reflexivity.
Qed.

Lemma scenario_hang_300_witness :
  squelch loud_frame (1 # 1000000) = Ok true /\
  run cfg_scenario init_state scenario_inputs =
    Ok ({| has_voice := false; sql_open := false; sql_open_time := 300 |},
        [SqlOpened; Write loud_frame] :: repeat [Write silent_frame] 9 ++
        [[Write silent_frame; SqlClosed]]).
Proof.
  assert (HL : squelch loud_frame (1 # 1000000) = Ok true) by (vm_compute; reflexivity).
  split; [exact HL|].
  apply (scenario_hang_300 8000 (1 # 1000000) loud_frame silent_frame false (repeat false 10)
           HL ltac:(vm_compute; reflexivity) eq_refl).
Defined.

(** C2 (as stated): with no hang time ([sql_duration = 0]) a loud frame
    opens and closes the gate in the same iteration. *)
Lemma loud_frame_closes_without_hang :
  squelch loud_frame (sql_threshold cfg_zero_hang) = Ok true /\
  step cfg_zero_hang init_state loud_frame false =
    Ok ({| has_voice := false; sql_open := false; sql_open_time := 0 |},
        [SqlOpened; Write loud_frame; SqlClosed]).
Proof.
  split; vm_compute; reflexivity.
Qed.

(** C2 (amended): a loud frame sets the hang timer to 0 before the timer
    advance of the same iteration.  From any state: after the iteration the
    gate is open exactly when [0 < sql_duration], with elapsed time
    [frame_duration] whatever it was before, and the iteration logs
    [SqlClosed] exactly when [sql_duration <= 0]; so with
    [sql_duration <= 0] the frame opens the gate and closes it again in the
    same iteration.  With [0 < sql_duration], after every prefix of a run of
    loud frames the gate is open and no iteration logged [SqlClosed]. *)
Theorem loud_run_keeps_open (cfg : config) :
  (forall s frame speech s' evs,
     squelch frame (sql_threshold cfg) = Ok true ->
     step cfg s frame speech = Ok (s', evs) ->
     sql_open s' = (0 <? sql_duration cfg) /\
     (sql_open s' = true -> sql_open_time s' = frame_duration cfg) /\
     closes evs = negb (0 <? sql_duration cfg)) /\
  (sql_duration cfg <= 0 ->
   forall s frame speech s' evs,
     squelch frame (sql_threshold cfg) = Ok true ->
     step cfg s frame speech = Ok (s', evs) ->
     sql_open s' = false /\ closes evs = true) /\
  (0 < sql_duration cfg ->
   forall s inputs n,
     Forall (fun '(f, _) => squelch f (sql_threshold cfg) = Ok true) inputs ->
     (0 < n <= length inputs)%nat ->
     exists s' evss,
       run cfg s (firstn n inputs) = Ok (s', evss) /\
       sql_open s' = true /\ sql_open_time s' = frame_duration cfg /\
       forallb (fun evs => negb (closes evs)) evss = true).
Proof.
  split; [|split].
  - intros s frame speech s' evs Hq Hs. exact (step_loud_any cfg s s' frame speech evs Hq Hs).
  - intros Hd s frame speech s' evs Hq Hs.
    destruct (step_loud_any cfg s s' frame speech evs Hq Hs) as [Ho [_ Hc]].
    replace (0 <? sql_duration cfg) with false in Ho, Hc
      by (symmetry; apply Z.ltb_ge; assumption).
    split; assumption.
  - intros Hd s inputs n Hloud Hn.
    revert s n Hn. induction Hloud as [|[f b] rest Hf Hrest IH]; intros s n Hn;
      cbn [length] in Hn; [lia|].
    destruct n as [|n]; [lia|]. cbn [firstn run].
    destruct (step_loud cfg s f b Hf Hd) as [hv [evs [Hs Hc]]]. rewrite Hs.
    destruct n as [|n].
    + cbn [firstn run].
      exists {| has_voice := hv; sql_open := true; sql_open_time := frame_duration cfg |}.
      exists [evs]. cbn [forallb]. rewrite Hc. repeat split.
    + destruct (IH {| has_voice := hv; sql_open := true; sql_open_time := frame_duration cfg |}
                  (S n)) as [s' [evss [Hr [Ho [Ht Hcl]]]]]; [lia|].
      rewrite Hr. exists s', (evs :: evss). cbn [forallb]. rewrite Hc, Hcl.
      repeat split; assumption.
Qed.

Lemma loud_run_keeps_open_witness :
  (exists s' evss,
     run cfg_scenario init_state (firstn 2 [(loud_frame, false); (loud_frame, true)]) =
       Ok (s', evss) /\
     sql_open s' = true /\ sql_open_time s' = 30 /\
     forallb (fun evs => negb (closes evs)) evss = true) /\
  (sql_open {| has_voice := false; sql_open := false; sql_open_time := 0 |} = false /\
   closes [Write loud_frame; SqlClosed] = true).
Proof.
  split.
  - apply (proj2 (proj2 (loud_run_keeps_open cfg_scenario))).
    + vm_compute. reflexivity.
    + repeat constructor; vm_compute; reflexivity.
    + cbn. lia.
  - apply (proj1 (proj2 (loud_run_keeps_open cfg_zero_hang)) ltac:(cbn; lia)
             {| has_voice := false; sql_open := true; sql_open_time := 120 |}
             loud_frame false).
    + vm_compute. reflexivity.
    + vm_compute. reflexivity.
Defined.

(** C3: with the voice gate on, an iteration on an open gate writes its
    frame exactly when voice is confirmed, before or by this very frame
    (which then logs [VoiceDetected]), and confirmation persists while the
    gate stays open; with the gate off every open-gate iteration writes.
    Over a run that starts open and voice-confirmed, every iteration writes
    up to and including the one that closes the gate. *)
Theorem voice_gate_writes (cfg : config) :
  (forall s s' frame speech loud evs,
     use_vad cfg = true ->
     squelch frame (sql_threshold cfg) = Ok loud -> sql_open s || loud = true ->
     step cfg s frame speech = Ok (s', evs) ->
     writes evs = has_voice s || speech /\
     voice_detected evs = negb (has_voice s) && speech /\
     (sql_open s' = true -> has_voice s' = has_voice s || speech)) /\
  (forall s s' frame speech loud evs,
     use_vad cfg = false ->
     squelch frame (sql_threshold cfg) = Ok loud -> sql_open s || loud = true ->
     step cfg s frame speech = Ok (s', evs) ->
     writes evs = true) /\
  (forall s inputs s' evss,
     use_vad cfg = true -> has_voice s = true -> sql_open s = true ->
     run cfg s inputs = Ok (s', evss) ->
     written_until_close evss = true).
Proof.
  split; [|split].
  - intros s s' frame speech loud evs Hv Hq Ho Hs.
    destruct (step_open cfg s s' frame speech loud evs Hq Ho Hs) as [Hw [Hvd [_ [Hk _]]]].
    rewrite Hv in Hw, Hvd, Hk. cbn in Hw, Hvd, Hk.
    split; [|split]; [exact Hw|exact Hvd|exact Hk].
  - intros s s' frame speech loud evs Hv Hq Ho Hs.
    destruct (step_open cfg s s' frame speech loud evs Hq Ho Hs) as [Hw _].
    rewrite Hv in Hw. exact Hw.
  - intros s inputs. revert s. induction inputs as [|[f b] rest IH];
      intros s s' evss Hv Hhv Hso Hr; cbn [run] in Hr.
    + injection Hr as _ <-. reflexivity.
    + destruct (step cfg s f b) as [[s1 evs]|e] eqn:Hs; [|discriminate].
      destruct (run cfg s1 rest) as [[s2 evss']|e] eqn:Hr'; [|discriminate].
      injection Hr as _ <-.
      destruct (squelch f (sql_threshold cfg)) as [loud|e] eqn:Hq;
        [|unfold step in Hs; rewrite Hq in Hs; discriminate].
      assert (Ho : sql_open s || loud = true) by (rewrite Hso; reflexivity).
      destruct (step_open cfg s s1 f b loud evs Hq Ho Hs) as [Hw [_ [Hc [Hk _]]]].
      rewrite Hv, Hhv in Hw, Hk. cbn in Hw, Hk. cbn [written_until_close].
      rewrite Hw, Hc. cbn.
      destruct (sql_open s1) eqn:Ho1; [|reflexivity]. cbn.
      apply (IH s1 s2 evss' Hv (Hk eq_refl) Ho1 Hr').
Qed.

(** C9: on a closed gate, a frame below the threshold writes nothing,
    logs nothing, does not call the classifier and leaves the state as it
    was. *)
Theorem closed_quiet_frame_no_effect (cfg : config) (s : state) (frame : list byte)
  (speech : bool)
  (Hc : sql_open s = false) (Hq : squelch frame (sql_threshold cfg) = Ok false) :
  step cfg s frame speech = Ok (s, []).
Proof.
  apply step_closed; assumption.
Qed.

Lemma closed_quiet_frame_no_effect_witness :
  step cfg_vad init_state silent_frame true = Ok (init_state, []).
Proof.
  apply (closed_quiet_frame_no_effect cfg_vad init_state silent_frame true).
  - reflexivity.
  - vm_compute. reflexivity.
Defined.

(** C10: in every state the loop reaches, voice is confirmed only while
    the gate is open. *)
Theorem reachable_voice_open (cfg : config) (s : state)
  (Hr : reachable cfg s) (Hv : has_voice s = true) :
  sql_open s = true.
Proof.
  revert Hv. induction Hr as [|s frame speech s' evs Hr IH Hs]; intros Hv;
    [discriminate Hv|].
  destruct (squelch frame (sql_threshold cfg)) as [loud|e] eqn:Hq;
    [|unfold step in Hs; rewrite Hq in Hs; discriminate].
  destruct (sql_open s || loud) eqn:Ho.
  - destruct (step_open cfg s s' frame speech loud evs Hq Ho Hs) as [_ [_ [_ [_ Hcl]]]].
    destruct (sql_open s') eqn:Ho'; [reflexivity|]. rewrite (Hcl eq_refl) in Hv. discriminate.
  - apply orb_false_iff in Ho. destruct Ho as [Hso Hl]. subst loud.
    rewrite (step_closed cfg s frame speech Hso Hq) in Hs. injection Hs as <- _.
    apply IH. assumption.
Qed.

Lemma reachable_voice_open_witness :
  sql_open {| has_voice := true; sql_open := true; sql_open_time := 30 |} = true.
Proof.
  apply (reachable_voice_open cfg_vad).
  - apply (reach_step cfg_vad init_state loud_frame true _
             [SqlOpened; VadQuery; VoiceDetected; Write loud_frame]).
    + apply reach_init.
    + vm_compute. reflexivity.
  - reflexivity.
Defined.


(** ** Further properties of the code *)

Lemma bytes_to_float_pair (c0 c1 : byte) : bytes_to_float [c0; c1] = le_s16 c0 c1 # 32768.
Proof.
  unfold bytes_to_float, from_bytes_le_signed, le_s16.
  cbn [from_bytes_le_unsigned length].
  replace (byte_Z c0 + 256 * (byte_Z c1 + 256 * 0)) with (byte_Z c0 + 256 * byte_Z c1)
    by ring.
  reflexivity.
Qed.

Lemma le_s16_range (c0 c1 : byte) : -32768 <= le_s16 c0 c1 <= 32767.
Proof.
  unfold le_s16. pose proof (byte_Z_range c0). pose proof (byte_Z_range c1).
  destruct (Z.leb_spec 32768 (byte_Z c0 + 256 * byte_Z c1)); lia.
Qed.

Lemma squelch_err_iff (frame : list byte) (t : Q) :
  squelch frame t = Err EmptyFrame <-> (length frame < 2)%nat.
Proof.
  rewrite <- frame_to_wave_nil_iff. unfold squelch.
  destruct (frame_to_wave frame) as [|x xs]; cbn; split; congruence.
Qed.

Lemma step_err_iff (cfg : config) (s : state) (frame : list byte) (speech : bool) :
  step cfg s frame speech = Err EmptyFrame <-> (length frame < 2)%nat.
Proof.
  rewrite <- (squelch_err_iff frame (sql_threshold cfg)). unfold step.
  destruct (squelch frame (sql_threshold cfg)) as [loud|e]; [|destruct e; tauto].
  split; [|discriminate]. intros H. exfalso.
  destruct loud, (sql_open s), (use_vad cfg), (has_voice s), speech; cbn in H;
    repeat match type of H with context [if ?c then _ else _] => destruct c end;
    discriminate.
Qed.

(** X2: every sample [frame_to_wave] decodes lies in [-1, 32767/32768]. *)
Theorem frame_to_wave_sample_range (frame : list byte) (x : Q)
  (Hx : In x (frame_to_wave frame)) :
  (-1 <= x <= 32767 # 32768)%Q.
Proof.
  rewrite frame_to_wave_nth in Hx. apply in_map_iff in Hx. destruct Hx as [k [<- _]].
  rewrite bytes_to_float_pair.
  pose proof (le_s16_range (nth (2 * k) frame x00) (nth (2 * k + 1) frame x00)) as Hv.
  revert Hv. generalize (le_s16 (nth (2 * k) frame x00) (nth (2 * k + 1) frame x00)).
  intros v Hv. unfold Qle. cbn. lia.
Qed.

Lemma frame_to_wave_sample_range_witness :
  (-1 <= 32767 # 32768 <= 32767 # 32768)%Q.
Proof.
  apply (frame_to_wave_sample_range [xff; x7f; x00; x00]). vm_compute. left. reflexivity.
Defined.

(** X3: a threshold above the largest sample value (e.g. [1.0], which
    [record] gets for any [sql_threshold_db >= 0]) never opens the gate: on
    frames of at least two bytes the loop from its initial state writes
    nothing, logs nothing, never calls the classifier and keeps its state. *)
Theorem high_threshold_records_nothing (cfg : config) (inputs : list (list byte * bool))
  (Ht : (32767 # 32768 < sql_threshold cfg)%Q)
  (Hlen : Forall (fun p => (2 <= length (fst p))%nat) inputs) :
  run cfg init_state inputs = Ok (init_state, map (fun _ => []) inputs).
Proof.
  induction Hlen as [|[f b] rest Hf _ IH]; [reflexivity|]. cbn [fst] in Hf. cbn [run map].
  assert (Hq : squelch f (sql_threshold cfg) = Ok false).
  { destruct (frame_to_wave f) as [|x xs] eqn:Hw.
    - apply frame_to_wave_nil_iff in Hw. lia.
    - destruct (py_max_spec (frame_to_wave f)) as [m [Hm [Hin _]]]; [rewrite Hw; discriminate|].
      unfold squelch. rewrite Hm. destruct (Qle_bool (sql_threshold cfg) m) eqn:E; [|reflexivity].
      apply Qle_bool_iff in E. exfalso. apply frame_to_wave_sample_range in Hin.
      apply (Qlt_not_le _ _ Ht). apply Qle_trans with m; [assumption|apply Hin]. }
  rewrite (step_closed cfg init_state f b eq_refl Hq), IH. reflexivity.
Qed.

Lemma high_threshold_records_nothing_witness :
  run {| rate := 8000; frame_duration := 30; sql_duration := 300;
         sql_threshold := 1; use_vad := true |} init_state [(loud_frame, true)] =
    Ok (init_state, [[]]).
Proof.
  apply (high_threshold_records_nothing
           {| rate := 8000; frame_duration := 30; sql_duration := 300;
              sql_threshold := 1; use_vad := true |} [(loud_frame, true)]).
  - vm_compute. reflexivity.
  - apply Forall_cons; [cbn; lia|apply Forall_nil].
Defined.

(** X4: lowering the threshold never closes the squelch: a frame that
    opens at threshold [t2] opens at every [t1 <= t2], and one that stays
    closed at [t1] stays closed at every [t2 >= t1]. *)
Theorem squelch_threshold_monotone (frame : list byte) (t1 t2 : Q) (Ht : (t1 <= t2)%Q) :
  (squelch frame t2 = Ok true -> squelch frame t1 = Ok true) /\
  (squelch frame t1 = Ok false -> squelch frame t2 = Ok false).
Proof.
  unfold squelch. destruct (py_max (frame_to_wave frame)) as [m|]; [|split; discriminate].
  split; intros H; injection H as H; f_equal.
  - apply Qle_bool_iff. apply Qle_bool_iff in H. apply Qle_trans with t2; assumption.
  - destruct (Qle_bool t2 m) eqn:E; [|reflexivity]. apply Qle_bool_iff in E.
    rewrite <- H. symmetry. apply Qle_bool_iff. apply Qle_trans with t2; assumption.
Qed.

Lemma squelch_threshold_monotone_witness :
  squelch loud_frame (1 # 2) = Ok true.
Proof.
  apply (squelch_threshold_monotone loud_frame (1 # 2) (32767 # 32768)).
  - vm_compute. discriminate.
  - vm_compute. reflexivity.
Defined.

Lemma run_app (cfg : config) (l1 l2 : list (list byte * bool)) : forall s,
  run cfg s (l1 ++ l2) =
  match run cfg s l1 with
  | Err e => Err e
  | Ok (s1, e1) =>
    match run cfg s1 l2 with
    | Err e => Err e
    | Ok (s2, e2) => Ok (s2, e1 ++ e2)
    end
  end.
Proof.
  induction l1 as [|[f b] l1 IH]; intros s; cbn [app run].
  - destruct (run cfg s l2) as [[s2 e2]|e]; reflexivity.
  - destruct (step cfg s f b) as [[s' evs]|e]; [|reflexivity].
    rewrite IH. destruct (run cfg s' l1) as [[s1 e1]|e]; [|reflexivity].
    destruct (run cfg s1 l2) as [[s2 e2]|e]; reflexivity.
Qed.

Lemma firstn_snoc {A : Type} (l : list A) (n : nat) (d : A) :
  (n < length l)%nat -> firstn (S n) l = firstn n l ++ [nth n l d].
Proof.
  revert n. induction l as [|a l IH]; intros n Hn; cbn in Hn; [lia|].
  destruct n as [|n]; [reflexivity|].
  change (firstn (S (S n)) (a :: l)) with (a :: firstn (S n) l).
  rewrite IH by lia. reflexivity.
Qed.

Lemma count_closes_app (e1 e2 : list (list effect)) :
  count_closes (e1 ++ e2) = (count_closes e1 + count_closes e2)%nat.
Proof.
  unfold count_closes. rewrite filter_app, length_app. reflexivity.
Qed.

(** A quiet frame on an open gate: the timer advances or the gate closes. *)
Lemma step_quiet_open (cfg : config) (s s' : state) (frame : list byte) (speech : bool)
  (evs : list effect) :
  squelch frame (sql_threshold cfg) = Ok false -> sql_open s = true ->
  step cfg s frame speech = Ok (s', evs) ->
  sql_open s' = (sql_open_time s <? sql_duration cfg) /\
  (sql_open s' = true -> sql_open_time s' = sql_open_time s + frame_duration cfg) /\
  closes evs = negb (sql_open_time s <? sql_duration cfg).
Proof.
  intros Hq Ho Hs. unfold step in Hs. rewrite Hq in Hs. destruct s as [hv so tm].
  cbn in Ho. subst so.
  cbn [sql_open_time]. destruct (use_vad cfg), hv, speech; cbn in Hs;
    destruct (tm <? sql_duration cfg); injection Hs as <- <-; cbn;
    repeat split; discriminate.
Qed.

(** X5: hang time.  After a loud frame followed by [n] quiet frames, the
    gate is open exactly when [n * frame_duration < sql_duration], with
    elapsed time [(n + 1) * frame_duration]; the gate has then closed
    once (in the first iteration where the quiet time reaches the hang
    duration) or not at all. *)
Theorem hang_time_quiet_frames (cfg : config) (s : state) (L : list byte) (b0 : bool)
  (qs : list (list byte * bool))
  (Hfd : 0 <= frame_duration cfg)
  (HL : squelch L (sql_threshold cfg) = Ok true)
  (Hq : Forall (fun p => squelch (fst p) (sql_threshold cfg) = Ok false) qs)
  (n : nat) (Hn : (n <= length qs)%nat) :
  exists s' evss,
    run cfg s ((L, b0) :: firstn n qs) = Ok (s', evss) /\
    sql_open s' = (Z.of_nat n * frame_duration cfg <? sql_duration cfg) /\
    (sql_open s' = true -> sql_open_time s' = (Z.of_nat n + 1) * frame_duration cfg) /\
    count_closes evss = (if sql_open s' then 0 else 1)%nat.
Proof.
  induction n as [|n IH].
  - cbn [firstn run]. destruct (step cfg s L b0) as [[s1 evs]|e] eqn:Hs;
      [|destruct e; apply step_err_iff in Hs;
       apply (proj2 (squelch_err_iff _ (sql_threshold cfg))) in Hs; congruence].
    destruct (step_loud_any cfg s s1 L b0 evs HL Hs) as [Ho [Ht Hc]].
    exists s1, [evs]. split; [reflexivity|]. rewrite Z.mul_0_l.
    split; [assumption|]. split; [intros H; rewrite Ht by assumption; ring|].
    unfold count_closes. cbn [filter]. rewrite Hc, Ho.
    destruct (0 <? sql_duration cfg); reflexivity.
  - destruct IH as [s1 [evss [Hr [Ho [Ht Hc]]]]]; [lia|].
    rewrite (firstn_snoc qs n ([], false)) by lia.
    rewrite app_comm_cons, run_app, Hr.
    destruct (nth n qs ([], false)) as [f b] eqn:Hnth.
    assert (Hf : squelch f (sql_threshold cfg) = Ok false).
    { rewrite Forall_forall in Hq. change f with (fst (f, b)). rewrite <- Hnth.
      apply Hq, nth_In. lia. }
    cbn [run]. destruct (step cfg s1 f b) as [[s2 evs]|e] eqn:Hs;
      [|destruct e; apply step_err_iff in Hs;
       apply (proj2 (squelch_err_iff _ (sql_threshold cfg))) in Hs; congruence].
    exists s2, (evss ++ [evs]). split; [reflexivity|].
    rewrite count_closes_app. destruct (sql_open s1) eqn:Ho1.
    + destruct (step_quiet_open cfg s1 s2 f b evs Hf Ho1 Hs) as [Ho2 [Ht2 Hc2]].
      specialize (Ht eq_refl). rewrite Ht in Ho2, Hc2, Ht2.
      replace ((Z.of_nat n + 1) * frame_duration cfg) with (Z.of_nat (S n) * frame_duration cfg)
        in Ho2, Hc2, Ht2 by lia.
      split; [assumption|]. split; [intros H; rewrite Ht2 by assumption; lia|].
      rewrite Hc, Ho2. unfold count_closes. cbn [filter]. rewrite Hc2.
      destruct (Z.of_nat (S n) * frame_duration cfg <? sql_duration cfg); reflexivity.
    + rewrite (step_closed cfg s1 f b Ho1 Hf) in Hs. injection Hs as <- <-.
      rewrite Ho1. split.
      * symmetry. apply Z.ltb_ge. symmetry in Ho. apply Z.ltb_ge in Ho.
        rewrite Nat2Z.inj_succ. nia.
      * split; [discriminate|]. rewrite Hc. reflexivity.
Qed.

Lemma hang_time_quiet_frames_witness :
  exists s' evss,
    run cfg_scenario init_state ((loud_frame, false) :: firstn 10 (repeat (silent_frame, false) 10)) =
      Ok (s', evss) /\
    sql_open s' = (Z.of_nat 10 * 30 <? 300) /\
    (sql_open s' = true -> sql_open_time s' = (Z.of_nat 10 + 1) * 30) /\
    count_closes evss = (if sql_open s' then 0 else 1)%nat.
Proof.
  apply (hang_time_quiet_frames cfg_scenario init_state loud_frame false
           (repeat (silent_frame, false) 10)).
  - cbn. lia.
  - vm_compute. reflexivity.
  - repeat apply Forall_cons; try apply Forall_nil; vm_compute; reflexivity.
  - cbn. lia.
Defined.

Lemma gate_log_app (l1 l2 : list effect) : forall b,
  gate_log b (l1 ++ l2) = match gate_log b l1 with Some b' => gate_log b' l2 | None => None end.
Proof.
  induction l1 as [|e l1 IH]; intros b; [reflexivity|].
  destruct e, b; cbn; auto.
Qed.

(** Splits an iteration on every test, keeping the timer comparison. *)
Ltac step_cases_spec H :=
  repeat (cbn in H; match type of H with
                    | context [if (?a <? ?b) then _ else _] => destruct (Z.ltb_spec a b)
                    end);
  cbn in H.

Lemma step_gate_log (cfg : config) (s s' : state) (frame : list byte) (speech : bool)
  (evs : list effect) :
  step cfg s frame speech = Ok (s', evs) -> gate_log (sql_open s) evs = Some (sql_open s').
Proof.
  intros Hs. unfold step in Hs.
  destruct (squelch frame (sql_threshold cfg)) as [loud|e]; [|discriminate].
  destruct s as [hv so tm].
  destruct loud, so, hv, (use_vad cfg), speech;
    step_cases Hs; injection Hs as <- <-; reflexivity.
Qed.

(** X6: the "SQL open" and "SQL closed" log lines of a run alternate and
    agree with the gate: each "open" line comes while the gate is closed,
    each "closed" line while it is open, and the last one tells how the
    gate ends. *)
Theorem run_gate_log_alternates (cfg : config) (s s' : state)
  (inputs : list (list byte * bool)) (evss : list (list effect))
  (Hr : run cfg s inputs = Ok (s', evss)) :
  gate_log (sql_open s) (concat evss) = Some (sql_open s').
Proof.
  revert s evss Hr. induction inputs as [|[f b] rest IH]; intros s evss Hr; cbn [run] in Hr.
  - injection Hr as <- <-. reflexivity.
  - destruct (step cfg s f b) as [[s1 evs]|e] eqn:Hs; [|discriminate].
    destruct (run cfg s1 rest) as [[s2 evss']|e] eqn:Hr'; [|discriminate].
    injection Hr as <- <-. cbn [concat]. rewrite gate_log_app, (step_gate_log _ _ _ _ _ _ Hs).
    apply IH. assumption.
Qed.

Lemma run_gate_log_alternates_witness :
  gate_log false (concat [[SqlOpened; Write loud_frame; SqlClosed]]) = Some false.
Proof.
  apply (run_gate_log_alternates cfg_zero_hang init_state
           {| has_voice := false; sql_open := false; sql_open_time := 0 |}
           [(loud_frame, false)]).
  vm_compute. reflexivity.
Defined.

(** X7: in every state the loop reaches (with a non-negative frame
    duration) the elapsed time is a non-negative multiple of
    [frame_duration], and it is either 0 or below
    [sql_duration + frame_duration]: the timer never runs past one frame
    beyond the hang duration. *)
Theorem reachable_open_time (cfg : config) (Hfd : 0 <= frame_duration cfg) (s : state)
  (Hr : reachable cfg s) :
  (exists k, 0 <= k /\ sql_open_time s = k * frame_duration cfg) /\
  0 <= sql_open_time s /\
  (sql_open_time s = 0 \/ sql_open_time s < sql_duration cfg + frame_duration cfg).
Proof.
  induction Hr as [|s frame speech s' evs Hr IH Hs].
  - cbn. split; [exists 0; split; [lia|ring]|lia].
  - destruct IH as [[k [Hk Hkt]] [H0 Hb]].
    unfold step in Hs. destruct (squelch frame (sql_threshold cfg)) as [loud|e]; [|discriminate].
    destruct s as [hv so tm]. cbn in Hkt, H0, Hb.
    destruct loud, so, hv, (use_vad cfg), speech; step_cases_spec Hs;
      injection Hs as <- _; cbn;
      (split; [|split];
       [ first [ exists 0; split; [lia|ring]
               | exists 1; split; [lia|ring]
               | exists k; split; assumption
               | exists (k + 1); split; [lia|rewrite Hkt; ring] ]
       | lia | lia ]).
Qed.

Lemma reachable_open_time_witness :
  (exists k, 0 <= k /\ 30 = k * 30) /\ 0 <= 30 /\ (30 = 0 \/ 30 < 300 + 30).
Proof.
  apply (reachable_open_time cfg_scenario ltac:(cbn; lia)
           {| has_voice := false; sql_open := true; sql_open_time := 30 |}).
  apply (reach_step cfg_scenario init_state loud_frame false _ [SqlOpened; Write loud_frame]).
  - apply reach_init.
  - vm_compute. reflexivity.
Defined.

(** X8: with [use_vad] off, no iteration calls the classifier or logs
    "Voice detected", and [has_voice] stays [False] in every state the
    loop reaches. *)
Theorem no_vad_never_classifies (cfg : config) (Hv : use_vad cfg = false) :
  (forall s s' frame speech evs,
     step cfg s frame speech = Ok (s', evs) -> ~ In VadQuery evs /\ ~ In VoiceDetected evs) /\
  (forall s, reachable cfg s -> has_voice s = false).
Proof.
  split.
  - intros s s' frame speech evs Hs. unfold step in Hs. rewrite Hv in Hs.
    destruct (squelch frame (sql_threshold cfg)) as [loud|e]; [|discriminate].
    destruct s as [hv so tm]. destruct loud, so, hv, speech; step_cases Hs;
      injection Hs as <- <-; cbn; split; intros H; cbn in H; intuition discriminate.
  - intros s Hr. induction Hr as [|s frame speech s' evs Hr IH Hs]; [reflexivity|].
    unfold step in Hs. rewrite Hv in Hs.
    destruct (squelch frame (sql_threshold cfg)) as [loud|e]; [|discriminate].
    destruct s as [hv so tm]. cbn in IH. subst hv.
    destruct loud, so, speech; step_cases Hs; injection Hs as <- <-; reflexivity.
Qed.

Lemma no_vad_never_classifies_witness :
  has_voice {| has_voice := false; sql_open := true; sql_open_time := 30 |} = false.
Proof.
  apply (proj2 (no_vad_never_classifies cfg_scenario eq_refl)).
  apply (reach_step cfg_scenario init_state loud_frame true _ [SqlOpened; Write loud_frame]).
  - apply reach_init.
  - vm_compute. reflexivity.
Defined.

Lemma written_frames_app (l1 l2 : list effect) :
  written_frames (l1 ++ l2) = written_frames l1 ++ written_frames l2.
Proof.
  induction l1 as [|e l1 IH]; [reflexivity|]. destruct e; cbn; rewrite ?IH; reflexivity.
Qed.

Lemma step_written (cfg : config) (s s' : state) (frame : list byte) (speech : bool)
  (evs : list effect) :
  step cfg s frame speech = Ok (s', evs) ->
  written_frames evs = if writes evs then [frame] else [].
Proof.
  intros Hs. unfold step in Hs.
  destruct (squelch frame (sql_threshold cfg)) as [loud|e]; [|discriminate].
  destruct s as [hv so tm].
  destruct loud, so, hv, (use_vad cfg), speech; step_cases Hs;
    injection Hs as <- <-; reflexivity.
Qed.

(** X11: the sink receives only frames that were read, unchanged and in
    the order read, each at most once: the frames written over a run are
    the frames of the iterations that write, one per iteration. *)
Theorem run_writes_frames_read (cfg : config) (s s' : state)
  (inputs : list (list byte * bool)) (evss : list (list effect))
  (Hr : run cfg s inputs = Ok (s', evss)) :
  length evss = length inputs /\
  written_frames (concat evss) =
    concat (map (fun p => if writes (snd p) then [fst (fst p)] else []) (combine inputs evss)).
Proof.
  revert s evss Hr. induction inputs as [|[f b] rest IH]; intros s evss Hr; cbn [run] in Hr.
  - injection Hr as <- <-. split; reflexivity.
  - destruct (step cfg s f b) as [[s1 evs]|e] eqn:Hs; [|discriminate].
    destruct (run cfg s1 rest) as [[s2 evss']|e] eqn:Hr'; [|discriminate].
    injection Hr as <- <-. destruct (IH s1 evss' Hr') as [Hl Hw].
    split; [cbn; rewrite Hl; reflexivity|].
    cbn [concat combine map fst snd]. rewrite written_frames_app, Hw, (step_written _ _ _ _ _ _ Hs).
    reflexivity.
Qed.

Lemma run_writes_frames_read_witness :
  written_frames (concat [[SqlOpened; Write loud_frame]; [Write silent_frame]]) =
    [loud_frame; silent_frame].
Proof.
  destruct (run_writes_frames_read cfg_scenario init_state
              {| has_voice := false; sql_open := true; sql_open_time := 60 |}
              [(loud_frame, false); (silent_frame, false)]
              [[SqlOpened; Write loud_frame]; [Write silent_frame]]) as [_ Hw].
  - vm_compute. reflexivity.
  - rewrite Hw. reflexivity.
Defined.

(** X10: for the rates the command line accepts, at least one channel and
    the default 30 ms frame, [chunk_size] involves no rounding
    ([chunk_size * 1000 = channels * rate * 30]) and is a positive multiple
    of 240 samples. *)
Theorem chunk_size_cli_rates (channels rate : Z) (Hc : 1 <= channels)
  (Hr : In rate [8000; 16000; 32000; 48000]) :
  record_chunk_size channels rate 30 * 1000 = channels * rate * 30 /\
  record_chunk_size channels rate 30 = 240 * (rate / 8000) * channels /\
  240 <= record_chunk_size channels rate 30.
Proof.
  unfold record_chunk_size.
  destruct Hr as [<-|[<-|[<-|[<-|[]]]]];
    [ replace (channels * 8000 * 30) with (channels * 240 * 1000) by ring
    | replace (channels * 16000 * 30) with (channels * 480 * 1000) by ring
    | replace (channels * 32000 * 30) with (channels * 960 * 1000) by ring
    | replace (channels * 48000 * 30) with (channels * 1440 * 1000) by ring ];
    rewrite Z.div_mul by lia;
    match goal with
    | |- context [?a / 8000] => let v := eval vm_compute in (a / 8000) in change (a / 8000) with v
    end;
    repeat split; lia.
Qed.

Lemma chunk_size_cli_rates_witness :
  record_chunk_size 1 8000 30 * 1000 = 1 * 8000 * 30 /\
  record_chunk_size 1 8000 30 = 240 * (8000 / 8000) * 1 /\
  240 <= record_chunk_size 1 8000 30.
Proof.
  apply (chunk_size_cli_rates 1 8000).
  - lia.
  - cbn. left. reflexivity.
Defined.
